(** * Permission-scoped SQL filters of pkg/services/accesscontrol/filter.go

    A shallow embedding of [Filter], [ParseScopes], the scope attribute
    parsers and the role-membership join builders of
    pkg/services/accesscontrol/filter.go, with the properties of their
    specification. *)

From Stdlib Require Import String Ascii ZArith.
From stdpp Require Import base gmap strings list.

Local Open Scope Z_scope.

(** ** Go string helpers *)

Module GoStrings.

(** [strings.HasPrefix(s, p)] *)
Definition HasPrefix (s p : string) : bool := String.prefix p s.

(** [strings.HasSuffix(s, suf)] *)
Definition HasSuffix (s suf : string) : bool :=
  let n := String.length s in
  let m := String.length suf in
  (m <=? n)%nat && String.eqb (String.substring (n - m) m s) suf.

(** [strings.LastIndex(s, sep)] for a one-character separator: the index
    of the last occurrence, or -1. *)
Fixpoint lastIndexFrom (c : ascii) (s : string) (i : Z) (best : Z) : Z :=
  match s with
  | EmptyString => best
  | String d rest =>
      lastIndexFrom c rest (i + 1) (if Ascii.eqb c d then i else best)
  end.

Definition LastIndexChar (s : string) (c : ascii) : Z := lastIndexFrom c s 0 (-1).

(** [s[k:]] *)
Definition sliceFrom (s : string) (k : nat) : string :=
  String.substring k (String.length s - k) s.

(** [strings.Repeat(s, n)] *)
Fixpoint Repeat (s : string) (n : nat) : string :=
  match n with
  | O => EmptyString
  | S n' => (s ++ Repeat s n')%string
  end.

(** [strconv.ParseInt(s, 10, 64)]: an optional sign, then at least one
    decimal digit (no underscores in base 10), and the value must fit in a
    signed 64-bit integer; every other input is an error ([None]). *)
Definition digitValue (c : ascii) : option Z :=
  let n := Z.of_nat (Ascii.nat_of_ascii c) in
  if (48 <=? n) && (n <=? 57) then Some (n - 48) else None.

Fixpoint parseDigits (s : string) (acc : Z) : option Z :=
  match s with
  | EmptyString => Some acc
  | String c rest =>
      match digitValue c with
      | Some d => parseDigits rest (acc * 10 + d)
      | None => None
      end
  end.

Definition ParseInt64 (s : string) : option Z :=
  match s with
  | EmptyString => None
  | String c rest =>
      let '(neg, body) :=
        if Ascii.eqb c "+"%char then (false, rest)
        else if Ascii.eqb c "-"%char then (true, rest)
        else (false, s) in
      match body with
      | EmptyString => None
      | _ =>
          match parseDigits body 0 with
          | None => None
          | Some u =>
              let v := if neg then - u else u in
              if (- 2 ^ 63 <=? v) && (v <? 2 ^ 63) then Some v else None
          end
      end
  end.

(** Splitting on ':' ([strings.Split(s, ":")]). *)
Fixpoint splitColonFrom (cur : string) (s : string) : list string :=
  match s with
  | EmptyString => [cur]
  | String c rest =>
      if Ascii.eqb c ":"%char then cur :: splitColonFrom EmptyString rest
      else splitColonFrom (cur ++ String c EmptyString)%string rest
  end.

Definition SplitColon (s : string) : list string := splitColonFrom EmptyString s.

End GoStrings.

Import GoStrings.

(** ** Identifiers: the [interface{}] keys of the identifier sets *)

(** An identifier is an [int64] (from [parseIntAttribute]) or a [string]
    (from [parseStringAttribute]); as [interface{}] values they compare
    equal only when of the same dynamic type and value. *)
Inductive Ident :=
| IdInt (z : Z)
| IdStr (s : string).

#[global] Instance Ident_eq_dec : EqDecision Ident.
Proof. solve_decision. Defined.

#[global] Instance Ident_countable : Countable Ident.
Proof.
  refine (inj_countable'
    (fun i => match i with IdInt z => inl z | IdStr s => inr s end)
    (fun x => match x with inl z => IdInt z | inr s => IdStr s end) _).
  by intros [].
Defined.

(** ** Wildcards *)

(** Modelled from the spec: [WildcardsFromPrefix] (and the [Contains]
    method of its result), which are not part of filter.go.  Section 4.2:
    for a prefix of colon-separated segments the wildcards are the bare
    resource wildcard [kind:*] and each more specific level
    [kind:attr:*], one per non-empty segment; a scope matches when it is
    exactly equal to one of them. *)
Fixpoint wildcardsFrom (acc : string) (segs : list string) : list string :=
  match segs with
  | [] => []
  | p :: rest =>
      if String.eqb p EmptyString then wildcardsFrom acc rest
      else let acc' := (acc ++ p ++ ":")%string in
           (acc' ++ "*")%string :: wildcardsFrom acc' rest
  end.

Definition WildcardsFromPrefix (prefix : string) : list string :=
  wildcardsFrom EmptyString (SplitColon prefix).

Definition WildcardsContains (w : list string) (scope : string) : bool :=
  existsb (String.eqb scope) w.

(** ** Scope parsing *)

Definition parseIntAttribute (scope : string) : option Ident :=
  match ParseInt64 (sliceFrom scope (Z.to_nat (LastIndexChar scope ":"%char + 1))) with
  | Some v => Some (IdInt v)
  | None => None
  end.

Definition parseStringAttribute (scope : string) : option Ident :=
  Some (IdStr (sliceFrom scope (Z.to_nat (LastIndexChar scope ":"%char + 1)))).

(** [ParseScopes]: the loop over the scopes, with its early return on a
    wildcard.  The [nil] map returned with [hasWildcard = true] reads as
    the empty set. *)
Fixpoint parseScopesLoop (parser : string -> option Ident) (wildcards : list string)
    (prefix : string) (scopes : list string) (ids : gset Ident) : gset Ident * bool :=
  match scopes with
  | [] => (ids, false)
  | scope :: rest =>
      if WildcardsContains wildcards scope then (∅, true)
      else
        let ids' :=
          if HasPrefix scope prefix then
            match parser scope with
            | Some id => {[ id ]} ∪ ids
            | None => ids
            end
          else ids in
        parseScopesLoop parser wildcards prefix rest ids'
  end.

Definition ParseScopes (prefix : string) (scopes : list string) : gset Ident * bool :=
  let parser := if HasSuffix prefix ":id:" then parseIntAttribute else parseStringAttribute in
  parseScopesLoop parser (WildcardsFromPrefix prefix) prefix scopes ∅.

(** ** Filter *)

Record SQLFilter := {
  Where : string;
  Args : list Ident
}.

Definition denyQuery : SQLFilter := {| Where := " 1 = 0"; Args := [] |}.
Definition allowAllQuery : SQLFilter := {| Where := " 1 = 1"; Args := [] |}.

(** The fields of [user.SignedInUser] that filter.go reads.  A Go map is
    [nil] ([None]) or a map; [Permissions] maps an organization ID to a
    (possibly [nil]) map from action to scopes. *)
Record SignedInUser := {
  UserID : Z;
  OrgID : Z;
  Permissions : option (gmap Z (option (gmap string (list string))))
}.

(** [user.Permissions[user.OrgID]]: [None] when it is [nil] (a [nil] outer
    map, no entry, or a [nil] entry). *)
Definition orgPermissions (u : SignedInUser) : option (gmap string (list string)) :=
  match Permissions u with
  | None => None
  | Some m =>
      match m !! OrgID u with
      | Some (Some pm) => Some pm
      | _ => None
      end
  end.

(** [user.Permissions[user.OrgID][a]]: a missing action reads as [nil]. *)
Definition actionScopes (pm : gmap string (list string)) (a : string) : list string :=
  default [] (pm !! a).

(** The double-quote character, for the Postgres entry ["user"."id"]. *)
Definition dquote : string := String "034"%char EmptyString.

(** The package-level [sqlIDAcceptList]. *)
Definition sqlIDAcceptList : gset string :=
  list_to_set ["id"; "org_user.user_id"; "role.uid"; "t.id"; "team.id"; "u.id";
               dquote ++ "user" ++ dquote ++ "." ++ dquote ++ "id" ++ dquote;
               "`user`.`id`"; "dashboard.uid"]%string.

(** [for id := range ids { result[id] += 1 }] *)
Definition tallyIds (ids : list Ident) (result : gmap Ident nat) : gmap Ident nat :=
  fold_left (fun r id => <[id := (default 0 (r !! id) + 1)%nat]> r) ids result.

(** The loop over the actions: [None] is the early [return denyQuery, nil];
    otherwise the final [wildcards] counter and [result] tally. *)
Fixpoint actionsLoop (prefix : string) (pm : gmap string (list string))
    (actions : list string) (wildcards : nat) (result : gmap Ident nat)
    : option (nat * gmap Ident nat) :=
  match actions with
  | [] => Some (wildcards, result)
  | a :: rest =>
      let '(ids, hasWildcard) := ParseScopes prefix (actionScopes pm a) in
      if hasWildcard then actionsLoop prefix pm rest (S wildcards) result
      else if bool_decide (size ids = 0%nat) then None
      else actionsLoop prefix pm rest wildcards (tallyIds (elements ids) result)
  end.

(** [for id, count := range result { if count+wildcards == len(actions) ...}];
    Go's map iteration order is unspecified, [map_to_list] is one order. *)
Definition selectIds (result : gmap Ident nat) (wildcards n : nat) : list Ident :=
  fold_left (fun ids '(id, count) =>
               if bool_decide ((count + wildcards)%nat = n) then ids ++ [id] else ids)
            (map_to_list result) [].

(** The [IN] clause built with the [strings.Builder]. *)
Definition inClause (sqlID : string) (n : nat) : string :=
  (" " ++ sqlID ++ " IN " ++ "(?" ++ Repeat ",?" (n - 1) ++ ")")%string.

(** [Filter(user, sqlID, prefix, actions...)], reading the accept list
    [acceptList] (the current value of [sqlIDAcceptList], which
    [SetAcceptListForTest] may replace).  The error is [Some msg] or [nil]
    ([None]). *)
Definition Filter (acceptList : gset string) (user : option SignedInUser)
    (sqlID prefix : string) (actions : list string) : SQLFilter * option string :=
  if bool_decide (sqlID ∉ acceptList) then
    (denyQuery, Some "sqlID is not in the accept list"%string)
  else
    match user with
    | None => (denyQuery, Some "missing permissions"%string)
    | Some u =>
        match orgPermissions u with
        | None => (denyQuery, Some "missing permissions"%string)
        | Some pm =>
            match actionsLoop prefix pm actions 0 ∅ with
            | None => (denyQuery, None)
            | Some (wildcards, result) =>
                if bool_decide (wildcards = length actions) then (allowAllQuery, None)
                else
                  let ids := selectIds result wildcards (length actions) in
                  match ids with
                  | [] => (denyQuery, None)
                  | _ => ({| Where := inClause sqlID (length ids); Args := ids |}, None)
                  end
            end
        end
    end.

(** ** Role-membership join builders *)

Definition nl : string := String "010"%char EmptyString.
Definition tab : string := String "009"%char EmptyString.

Section RoleFilters.

(** Modelled from the spec: [GlobalOrgID], the reserved "global"
    organization sentinel, which is not part of filter.go; the spec does
    not fix its value, so the builders take it as a parameter. *)
Variable GlobalOrgID : Z.

Definition UserRolesFilterCondition (orgID userID : Z) : string * list Ident :=
  if bool_decide (userID = 0) then (EmptyString, [])
  else ("ur.user_id = ? AND (ur.org_id = ? OR ur.org_id = 0)"%string,
        [IdInt userID; IdInt orgID; IdInt GlobalOrgID]).

(** [fmt.Sprintf] of the raw string literal with [%s] replaced by [sql]. *)
Definition userRolesFilter (orgID userID : Z) : string * list Ident :=
  let '(sql, params) := UserRolesFilterCondition orgID userID in
  if String.eqb sql EmptyString then (sql, params)
  else ((nl ++ tab ++ "SELECT ur.role_id" ++ nl ++ tab ++ "FROM user_role AS ur"
            ++ nl ++ tab ++ "WHERE " ++ sql ++ nl ++ tab)%string, params).

Definition TeamRolesFilderCondition (orgID : Z) (teamIDs : list Z) : string * list Ident :=
  match teamIDs with
  | [] => (EmptyString, [])
  | _ =>
      let params := map IdInt teamIDs ++ [IdInt orgID] in
      (("tr.team_id IN(?" ++ Repeat ", ?" (length teamIDs - 1) ++ ") AND tr.org_id = ?")%string,
       params)
  end.

Definition teamRolesFilter (orgID : Z) (teamIDs : list Z) : string * list Ident :=
  let '(sql, params) := TeamRolesFilderCondition orgID teamIDs in
  if String.eqb sql EmptyString then (sql, params)
  else ((nl ++ tab ++ "SELECT tr.role_id FROM team_role as tr" ++ nl ++ tab
            ++ "WHERE " ++ sql ++ nl ++ tab)%string, params).

Definition BuiltinRolesFilterCondition (orgID : Z) (roles : list string) : string * list Ident :=
  match roles with
  | [] => (EmptyString, [])
  | _ =>
      let params := map IdStr roles ++ [IdInt orgID; IdInt GlobalOrgID] in
      (("br.role IN (?" ++ Repeat ", ?" (length roles - 1)
          ++ ") AND (br.org_id = ? OR br.org_id = ?)")%string, params)
  end.

Definition builtinRolesFilter (orgID : Z) (roles : list string) : string * list Ident :=
  let '(sql, params) := BuiltinRolesFilterCondition orgID roles in
  if String.eqb sql EmptyString then (sql, params)
  else ((nl ++ tab ++ "SELECT br.role_id FROM builtin_role AS br" ++ nl ++ tab
            ++ "WHERE " ++ sql ++ nl ++ tab)%string, params).

(** One step of [UserRolesFilter]: append a non-empty channel to the
    builder, separated by [" OR "] when the builder is not empty. *)
Definition appendChannel (acc : string * list Ident) (ch : string * list Ident)
    : string * list Ident :=
  let '(builder, params) := acc in
  let '(sql, args) := ch in
  if String.eqb sql EmptyString then (builder, params)
  else
    let builder' := if (0 <? String.length builder)%nat then (builder ++ " OR ")%string
                    else builder in
    ((builder' ++ sql)%string, params ++ args).

Definition UserRolesFilter (orgID userID : Z) (teamIDs : list Z) (roles : list string)
    : string * list Ident :=
  let acc := appendChannel (EmptyString, []) (userRolesFilter orgID userID) in
  let acc := appendChannel acc (teamRolesFilter orgID teamIDs) in
  let '(builder, params) := appendChannel acc (builtinRolesFilter orgID roles) in
  (("INNER JOIN (" ++ builder ++ ") as all_role ON role.id = all_role.role_id")%string, params).

End RoleFilters.

(** ** Substrings *)

(** [w] occurs in [s]. *)
Definition containsStr (w s : string) : Prop := exists a b, s = (a ++ w ++ b)%string.

Fixpoint isInfix (w s : string) : bool :=
  String.prefix w s || match s with EmptyString => false | String _ s' => isInfix w s' end.

(** Drop the characters ',', '?' and ' ', which make up the repeated
    placeholder lists. *)
Definition keepChar (c : ascii) : bool :=
  negb (Ascii.eqb c ","%char || Ascii.eqb c "?"%char || Ascii.eqb c " "%char).

Fixpoint strip (s : string) : string :=
  match s with
  | EmptyString => EmptyString
  | String c s' => if keepChar c then String c (strip s') else strip s'
  end.

(** ** The action loop over the parsed scopes *)

(** [actionsLoop] once [ParseScopes] has been evaluated for every action. *)
Fixpoint resultsLoop (L : list (gset Ident * bool)) (wildcards : nat)
    (result : gmap Ident nat) : option (nat * gmap Ident nat) :=
  match L with
  | [] => Some (wildcards, result)
  | (ids, hasWildcard) :: rest =>
      if hasWildcard then resultsLoop rest (S wildcards) result
      else if bool_decide (size ids = 0%nat) then None
      else resultsLoop rest wildcards (tallyIds (elements ids) result)
  end.

(** [Filter] after its two guards, on the parsed scopes of the actions. *)
Definition filterResults (sqlID : string) (L : list (gset Ident * bool))
    : SQLFilter * option string :=
  match resultsLoop L 0 ∅ with
  | None => (denyQuery, None)
  | Some (wildcards, result) =>
      if bool_decide (wildcards = length L) then (allowAllQuery, None)
      else
        let ids := selectIds result wildcards (length L) in
        match ids with
        | [] => (denyQuery, None)
        | _ => ({| Where := inClause sqlID (length ids); Args := ids |}, None)
        end
  end.

(** Number of wildcarded actions. *)
Fixpoint cntWild (L : list (gset Ident * bool)) : nat :=
  match L with
  | [] => 0
  | (_, b) :: rest => ((if b then 1 else 0) + cntWild rest)%nat
  end.

(** Number of non-wildcarded actions that grant [x]. *)
Fixpoint cntGrant (x : Ident) (L : list (gset Ident * bool)) : nat :=
  match L with
  | [] => 0
  | (ids, b) :: rest =>
      ((if b then 0 else if bool_decide (x ∈ ids) then 1 else 0) + cntGrant x rest)%nat
  end.

(** ** Auxiliary views of the scope parsing *)

(** The parser [ParseScopes] selects for a prefix. *)
Definition scopeParser (prefix : string) : string -> option Ident :=
  if HasSuffix prefix ":id:" then parseIntAttribute else parseStringAttribute.

(** The identifiers parsed from the scopes that start with the prefix. *)
Definition parsedIds (parser : string -> option Ident) (prefix : string)
    (scopes : list string) : gset Ident :=
  list_to_set (omap (fun s => if HasPrefix s prefix then parser s else None) scopes).

(** The index of the last ':' of a string, or -1, computed from the end. *)
Fixpoint lastColon (s : string) : Z :=
  match s with
  | EmptyString => -1
  | String d rest =>
      let j := lastColon rest in
      if 0 <=? j then j + 1 else if Ascii.eqb ":"%char d then 0 else -1
  end.

(** Number of occurrences of a character (the placeholders ['?']). *)
Fixpoint countChar (c : ascii) (s : string) : nat :=
  match s with
  | EmptyString => 0
  | String d rest => ((if Ascii.eqb c d then 1 else 0) + countChar c rest)%nat
  end.

(** ** Sample permissions *)

(** Scopes of a sample user in organization 1, per action. *)
Definition sampleScopes : gmap string (list string) :=
  {[ "teams:read" := ["teams:id:5"; "teams:id:9"];
     "teams:write" := ["teams:id:1"; "teams:id:2"; "teams:id:3"];
     "teams:delete" := ["teams:id:2"; "teams:id:3"; "teams:id:4"];
     "teams:admin" := ["teams:*"];
     "teams:create" := ["teams:id:*"];
     "teams:edit" := ["teams:id:5"];
     "teams:remove" := ["users:id:1"; "teams:id:x"] ]}%string.

Definition samplePermissions : gmap Z (option (gmap string (list string))) :=
  {[ 1 := Some sampleScopes ]}.

Definition sampleUser : SignedInUser :=
  {| UserID := 7; OrgID := 1; Permissions := Some samplePermissions |}.

(** The same user signed in to organization 2, where it has no entry. *)
Definition sampleUserOrg2 : SignedInUser :=
  {| UserID := 7; OrgID := 2; Permissions := Some samplePermissions |}.

(** Closes the decidable side conditions on concrete inputs. *)
Ltac concrete := first [ reflexivity
                       | apply (bool_decide_unpack _); vm_compute; reflexivity
                       | vm_compute; reflexivity ].

(** ** Lemmas on the embedding *)

Lemma actionsLoop_results prefix pm actions w r :
  actionsLoop prefix pm actions w r =
  resultsLoop (map (fun a => ParseScopes prefix (actionScopes pm a)) actions) w r.
Proof.
  revert w r. induction actions as [|a rest IH]; intros w r; [done|].
  simpl. destruct (ParseScopes prefix (actionScopes pm a)) as [ids []]; simpl; auto.
  case_bool_decide; auto.
Qed.

Lemma Filter_results acc u pm sqlID prefix actions :
  sqlID ∈ acc -> orgPermissions u = Some pm ->
  Filter acc (Some u) sqlID prefix actions =
  filterResults sqlID (map (fun a => ParseScopes prefix (actionScopes pm a)) actions).
Proof.
  intros Hacc Hpm. unfold Filter, filterResults.
  rewrite bool_decide_false by tauto. rewrite Hpm, actionsLoop_results, length_map.
  reflexivity.
Qed.

Lemma parseScopesLoop_wildcard parser w prefix scopes ids0 ids :
  parseScopesLoop parser w prefix scopes ids0 = (ids, true) -> ids = ∅.
Proof.
  revert ids0. induction scopes as [|s rest IH]; intros ids0; simpl; [congruence|].
  destruct (WildcardsContains w s); [congruence|]. apply IH.
Qed.

Lemma ParseScopes_wildcard prefix scopes :
  (ParseScopes prefix scopes).2 = true -> ParseScopes prefix scopes = (∅, true).
Proof.
  destruct (ParseScopes prefix scopes) as [ids b] eqn:E; simpl; intros ->.
  unfold ParseScopes in E. apply parseScopesLoop_wildcard in E. by subst.
Qed.

Lemma resultsLoop_empty L w r :
  (∅, false) ∈ L -> resultsLoop L w r = None.
Proof.
  revert w r. induction L as [|[ids b] rest IH]; intros w r Hin;
    [by apply elem_of_nil in Hin|].
  apply elem_of_cons in Hin as [Heq | Hin].
  - injection Heq as <- <-. simpl. rewrite bool_decide_true; [done|].
    reflexivity.
  - simpl. destruct b; [by apply IH|]. case_bool_decide; [done|]. by apply IH.
Qed.

Lemma resultsLoop_all_wild L w r :
  Forall (fun p => p.2 = true) L -> resultsLoop L w r = Some ((w + length L)%nat, r).
Proof.
  revert w. induction L as [|[ids b] rest IH]; intros w HL; simpl.
  - by rewrite Nat.add_0_r.
  - apply Forall_cons in HL as [Hb HL]. simpl in Hb; subst b.
    rewrite IH by done. do 2 f_equal. lia.
Qed.

Lemma tallyIds_lookup (l : list Ident) (r : gmap Ident nat) x :
  NoDup l ->
  default 0%nat (tallyIds l r !! x) =
  (default 0%nat (r !! x) + if bool_decide (x ∈ l) then 1 else 0)%nat.
Proof.
  revert r. induction l as [|y l IH]; intros r Hnd; simpl.
  - lia.
  - apply NoDup_cons in Hnd as [Hy Hnd]. rewrite IH by done.
    destruct (decide (x = y)) as [->|Hne].
    + rewrite lookup_insert_eq, bool_decide_false by done.
      rewrite bool_decide_true by (rewrite elem_of_cons; by left). simpl. lia.
    + rewrite lookup_insert_ne by done.
      assert (x ∈ y :: l <-> x ∈ l) as Hiff.
      { rewrite elem_of_cons. naive_solver. }
      by rewrite (bool_decide_ext _ _ Hiff).
Qed.

Lemma tallyIds_pos (l : list Ident) (r : gmap Ident nat) :
  map_Forall (fun _ c => 1 <= c)%nat r -> map_Forall (fun _ c => 1 <= c)%nat (tallyIds l r).
Proof.
  revert r. induction l as [|y l IH]; intros r Hr; simpl; [done|].
  apply IH, map_Forall_insert_2; [lia|done].
Qed.

Lemma resultsLoop_counts L w r w' r' :
  resultsLoop L w r = Some (w', r') ->
  w' = (w + cntWild L)%nat /\
  (forall x, default 0%nat (r' !! x) = (default 0%nat (r !! x) + cntGrant x L)%nat) /\
  (map_Forall (fun _ c => 1 <= c)%nat r -> map_Forall (fun _ c => 1 <= c)%nat r').
Proof.
  revert w r. induction L as [|[ids b] rest IH]; intros w r H; simpl in H.
  - injection H as <- <-. simpl. split; [lia|]. split; [intros; lia | done].
  - destruct b.
    + apply IH in H as (-> & Hc & Hp). simpl. split; [lia|]. split; [|done].
      intros x. rewrite Hc. lia.
    + case_bool_decide; [done|]. apply IH in H as (-> & Hc & Hp). simpl.
      split; [lia|]. split.
      * intros x. rewrite Hc, tallyIds_lookup by apply NoDup_elements.
        assert (x ∈ elements ids <-> x ∈ ids) as Hiff by apply elem_of_elements.
        rewrite (bool_decide_ext _ _ Hiff). lia.
      * intros Hr. by apply Hp, tallyIds_pos.
Qed.

Lemma cnt_le L x : (cntWild L + cntGrant x L <= length L)%nat.
Proof.
  induction L as [|[ids b] rest IH]; simpl; [lia|].
  destruct b; [lia|]. case_bool_decide; lia.
Qed.

Lemma cnt_full L x :
  (cntWild L + cntGrant x L)%nat = length L ->
  forall p, p ∈ L -> p.2 = true \/ x ∈ p.1.
Proof.
  induction L as [|[ids b] rest IH]; simpl; intros H p Hp.
  - by apply elem_of_nil in Hp.
  - pose proof (cnt_le rest x) as Hle.
    apply elem_of_cons in Hp as [-> | Hp].
    + destruct b; [by left|]. case_bool_decide; [by right | lia].
    + apply IH; [|done]. destruct b; [lia|]. case_bool_decide; lia.
Qed.

Lemma cntGrant_pos L x :
  (1 <= cntGrant x L)%nat -> exists p, p ∈ L /\ p.2 = false /\ x ∈ p.1.
Proof.
  induction L as [|[ids b] rest IH]; simpl; intros H; [lia|].
  destruct b.
  - destruct IH as (p & ? & ? & ?); [lia|]. exists p. split; [rewrite elem_of_cons; by right|done].
  - case_bool_decide.
    + exists (ids, false). split; [rewrite elem_of_cons; by left | done].
    + destruct IH as (p & ? & ? & ?); [lia|].
      exists p. split; [rewrite elem_of_cons; by right|done].
Qed.

Lemma selectIds_filter (result : gmap Ident nat) w n :
  selectIds result w n =
  (fun p => p.1) <$> filter (fun p => (p.2 + w)%nat = n) (map_to_list result).
Proof.
  unfold selectIds.
  assert (forall (l : list (Ident * nat)) acc,
    fold_left (fun ids '(id, count) =>
                 if bool_decide ((count + w)%nat = n) then ids ++ [id] else ids) l acc =
    acc ++ ((fun p => p.1) <$> filter (fun p => (p.2 + w)%nat = n) l)) as Hgen.
  { induction l as [|[id c] l IH]; intros acc; simpl.
    - by rewrite app_nil_r.
    - rewrite filter_cons. simpl. destruct (decide ((c + w)%nat = n)) as [Hc|Hc].
      + rewrite bool_decide_true by done. rewrite IH. simpl. by rewrite <- app_assoc.
      + rewrite bool_decide_false by done. by rewrite IH. }
  by rewrite Hgen.
Qed.

Lemma selectIds_elem (result : gmap Ident nat) w n x :
  x ∈ selectIds result w n <-> exists c, result !! x = Some c /\ (c + w)%nat = n.
Proof.
  rewrite selectIds_filter, list_elem_of_fmap. split.
  - intros ([y c] & -> & Hin). apply list_elem_of_filter in Hin as [Hc Hin].
    apply elem_of_map_to_list in Hin. simpl in *. eauto.
  - intros (c & Hl & Hc). exists (x, c). split; [done|].
    apply list_elem_of_filter. split; [done|]. by apply elem_of_map_to_list.
Qed.

Lemma selectIds_NoDup (result : gmap Ident nat) w n : NoDup (selectIds result w n).
Proof.
  rewrite selectIds_filter. eapply sublist_NoDup; [apply (NoDup_fst_map_to_list result)|].
  apply fmap_sublist, sublist_filter.
Qed.

Lemma filterResults_args sqlID L f x :
  filterResults sqlID L = (f, None) -> x ∈ Args f ->
  (forall p, p ∈ L -> p.2 = true \/ x ∈ p.1) /\
  (exists p, p ∈ L /\ p.2 = false /\ x ∈ p.1).
Proof.
  unfold filterResults. intros H Hx.
  destruct (resultsLoop L 0 ∅) as [[w' r']|] eqn:E;
    [|injection H as <-; by apply elem_of_nil in Hx].
  case_bool_decide; [injection H as <-; by apply elem_of_nil in Hx|].
  destruct (selectIds r' w' (length L)) as [|i l] eqn:Es;
    [injection H as <-; by apply elem_of_nil in Hx|].
  injection H as <-. simpl in Hx. rewrite <- Es in Hx.
  apply selectIds_elem in Hx as (c & Hc & Hsum).
  apply resultsLoop_counts in E as (-> & Hcnt & Hpos).
  specialize (Hcnt x). rewrite Hc, lookup_empty in Hcnt. simpl in Hcnt.
  split.
  - apply cnt_full. lia.
  - apply cntGrant_pos.
    assert (1 <= c)%nat by (eapply Hpos; [apply map_Forall_empty | exact Hc]). lia.
Qed.

Lemma elem_of_parsed prefix pm (actions : list string) p :
  p ∈ map (fun a => ParseScopes prefix (actionScopes pm a)) actions ->
  exists a, a ∈ actions /\ p = ParseScopes prefix (actionScopes pm a).
Proof.
  intros Hp. apply (list_elem_of_fmap (fun a => ParseScopes prefix (actionScopes pm a))) in Hp
    as (a & -> & Ha). eauto.
Qed.

(** ** Properties of [Filter] *)

(** C1: when the column identifier is not in the accept list, [Filter]
    returns the deny-all filter and a non-nil error, whatever the user,
    prefix and actions. *)
Theorem Filter_rejects_unlisted_column acc user sqlID prefix actions :
  sqlID ∉ acc ->
  exists err, Filter acc user sqlID prefix actions = (denyQuery, Some err).
Proof.
  intros H. unfold Filter. rewrite bool_decide_true by done. eauto.
Qed.

(** C7: when the user is nil, its permission map is nil, or the map has no
    entry for the user's organization, [Filter] returns the deny-all filter
    and a non-nil error, for every column, prefix and actions. *)
Theorem Filter_missing_permissions acc user sqlID prefix actions :
  (user = None \/
   (exists u, user = Some u /\ Permissions u = None) \/
   (exists u m, user = Some u /\ Permissions u = Some m /\ m !! OrgID u = None)) ->
  exists err, Filter acc user sqlID prefix actions = (denyQuery, Some err).
Proof.
  intros Hu. unfold Filter. case_bool_decide; [eauto|].
  destruct Hu as [-> | [(u & -> & Hp) | (u & m & -> & Hp & Hm)]]; [eauto| |].
  - unfold orgPermissions. rewrite Hp. eauto.
  - unfold orgPermissions. rewrite Hp, Hm. eauto.
Qed.

(** C2: with an accept-listed column and the user's permissions present,
    if one requested action's scopes parse to the empty identifier set
    without a wildcard, [Filter] returns the deny-all filter and a nil
    error, whatever the other actions grant. *)
Theorem Filter_empty_action_denies acc u pm sqlID prefix actions a :
  sqlID ∈ acc -> orgPermissions u = Some pm -> a ∈ actions ->
  ParseScopes prefix (actionScopes pm a) = (∅, false) ->
  Filter acc (Some u) sqlID prefix actions = (denyQuery, None).
Proof.
  intros Hacc Hpm Ha Hps. rewrite (Filter_results _ _ pm) by done.
  unfold filterResults. rewrite resultsLoop_empty; [done|].
  rewrite <- Hps. by apply (list_elem_of_fmap_2 (fun a => ParseScopes prefix (actionScopes pm a))).
Qed.

(** C5: with an accept-listed column and a user whose scopes give a
    wildcard for the prefix on every requested action, [Filter] returns the
    allow-all filter [" 1 = 1"] with no arguments and a nil error. *)
Theorem Filter_all_wildcards_allows acc u pm sqlID prefix actions :
  sqlID ∈ acc -> orgPermissions u = Some pm ->
  (forall a, a ∈ actions -> (ParseScopes prefix (actionScopes pm a)).2 = true) ->
  Filter acc (Some u) sqlID prefix actions = (allowAllQuery, None).
Proof.
  intros Hacc Hpm Hw. rewrite (Filter_results _ _ pm) by done.
  unfold filterResults. rewrite resultsLoop_all_wild.
  - rewrite bool_decide_true; [done|]. lia.
  - apply Forall_forall. intros p Hp.
    apply elem_of_parsed in Hp as (a & Ha & ->). by apply Hw.
Qed.

(** C6: with an accept-listed column, a user and a non-nil permission map
    for its organization, [Filter] with no actions returns the allow-all
    filter with no arguments and a nil error. *)
Theorem Filter_no_actions_allows acc u pm sqlID prefix :
  sqlID ∈ acc -> orgPermissions u = Some pm ->
  Filter acc (Some u) sqlID prefix [] = (allowAllQuery, None).
Proof.
  intros Hacc Hpm. rewrite (Filter_results _ _ pm) by done. reflexivity.
Qed.

(** C3: with an accept-listed column and the user's permissions present,
    two actions whose scopes parse to {1,2,3} and {2,3,4} (no wildcard)
    give the filter [sqlID IN (?,?)] whose arguments are exactly {2,3};
    and in general, for every accept list, user, column, prefix and list of
    actions, an identifier is a bound argument of the returned filter only
    if the user's permissions for its organization are present and every
    requested action grants it or is wildcarded. *)
Theorem Filter_intersection :
  (forall acc u pm sqlID prefix a1 a2,
     sqlID ∈ acc -> orgPermissions u = Some pm ->
     ParseScopes prefix (actionScopes pm a1) = ({[IdInt 1; IdInt 2; IdInt 3]}, false) ->
     ParseScopes prefix (actionScopes pm a2) = ({[IdInt 2; IdInt 3; IdInt 4]}, false) ->
     exists args,
       Filter acc (Some u) sqlID prefix [a1; a2] =
         ({| Where := inClause sqlID 2; Args := args |}, None) /\
       NoDup args /\ (forall x, x ∈ args <-> x = IdInt 2 \/ x = IdInt 3)) /\
  (forall acc user sqlID prefix actions f e x,
     Filter acc user sqlID prefix actions = (f, e) -> x ∈ Args f ->
     exists u pm, user = Some u /\ orgPermissions u = Some pm /\
       forall a, a ∈ actions ->
         (ParseScopes prefix (actionScopes pm a)).2 = true \/
         x ∈ (ParseScopes prefix (actionScopes pm a)).1).
Proof.
  split.
  - intros acc u pm sqlID prefix a1 a2 Hacc Hpm H1 H2.
    exists [IdInt 3; IdInt 2]. rewrite (Filter_results _ _ pm) by done.
    cbn [map]. rewrite H1, H2. split; [vm_compute; reflexivity|]. split.
    + repeat constructor; rewrite ?elem_of_cons, ?elem_of_nil; naive_solver.
    + intros x. rewrite !elem_of_cons, elem_of_nil. naive_solver.
  - intros acc user sqlID prefix actions f e x Hf Hx.
    destruct (decide (sqlID ∈ acc)) as [Hacc|Hacc];
      [|unfold Filter in Hf; rewrite bool_decide_true in Hf by done;
        injection Hf as <- _; by apply elem_of_nil in Hx].
    destruct user as [u|];
      [|unfold Filter in Hf; rewrite bool_decide_false in Hf by tauto;
        injection Hf as <- _; by apply elem_of_nil in Hx].
    destruct (orgPermissions u) as [pm|] eqn:Hpm;
      [|unfold Filter in Hf; rewrite bool_decide_false, Hpm in Hf by tauto;
        injection Hf as <- _; by apply elem_of_nil in Hx].
    exists u, pm. split; [done|]. split; [done|].
    intros a Ha. rewrite (Filter_results _ _ pm) in Hf by done.
    destruct e as [err|].
    + unfold filterResults in Hf.
      destruct (resultsLoop _ 0 ∅) as [[w' r']|]; [|done].
      case_bool_decide; [done|]. destruct selectIds; done.
    + apply (filterResults_args _ _ _ x) in Hf as [Hall _]; [|done].
      apply Hall. by apply (list_elem_of_fmap_2 (fun a => ParseScopes prefix (actionScopes pm a))).
Qed.

(** C4: with an accept-listed column and the user's permissions present, a
    wildcarded action followed by an action granting {5} gives the filter
    [sqlID IN (?)] with the single argument 5; and in general every bound
    argument of a returned filter is granted by some requested action that
    is not wildcarded: a wildcard adds no identifier of its own. *)
Theorem Filter_wildcard_neutral acc u pm sqlID prefix a1 a2 :
  sqlID ∈ acc -> orgPermissions u = Some pm ->
  (ParseScopes prefix (actionScopes pm a1)).2 = true ->
  ParseScopes prefix (actionScopes pm a2) = ({[IdInt 5]}, false) ->
  Filter acc (Some u) sqlID prefix [a1; a2] =
    ({| Where := inClause sqlID 1; Args := [IdInt 5] |}, None) /\
  (forall actions f x,
     Filter acc (Some u) sqlID prefix actions = (f, None) -> x ∈ Args f ->
     exists a, a ∈ actions /\
       (ParseScopes prefix (actionScopes pm a)).2 = false /\
       x ∈ (ParseScopes prefix (actionScopes pm a)).1).
Proof.
  intros Hacc Hpm H1 H2. apply ParseScopes_wildcard in H1. split.
  - rewrite (Filter_results _ _ pm) by done. cbn [map]. rewrite H1, H2.
    vm_compute. reflexivity.
  - intros actions f x Hf Hx. rewrite (Filter_results _ _ pm) in Hf by done.
    apply (filterResults_args _ _ _ x) in Hf as [_ (p & Hp & Hb & Hin)]; [|done].
    apply elem_of_parsed in Hp as (a & Ha & ->). eauto.
Qed.

(** C10: for a user whose scopes for ["teams:read"] in its organization are
    ["teams:id:5"; "teams:id:9"], [Filter] on column ["t.id"] with prefix
    ["teams:id:"] returns a nil error and the filter [" t.id IN (?,?)"]
    whose arguments are, as a set, the 64-bit integers {5, 9}. *)
Theorem Filter_teams_example u m pm :
  Permissions u = Some m -> m !! OrgID u = Some (Some pm) ->
  pm !! "teams:read"%string = Some ["teams:id:5"; "teams:id:9"]%string ->
  exists args,
    Filter sqlIDAcceptList (Some u) "t.id" "teams:id:" ["teams:read"]%string =
      ({| Where := " t.id IN (?,?)"; Args := args |}, None) /\
    NoDup args /\ (forall x, x ∈ args <-> x = IdInt 5 \/ x = IdInt 9).
Proof.
  intros Hp Hm Hr.
  assert (orgPermissions u = Some pm) as Hpm by (unfold orgPermissions; by rewrite Hp, Hm).
  exists [IdInt 9; IdInt 5]. rewrite (Filter_results _ _ pm) by (done || vm_compute; tauto).
  cbn [map]. unfold actionScopes. rewrite Hr. split; [vm_compute; reflexivity|]. split.
  - repeat constructor; rewrite ?elem_of_cons, ?elem_of_nil; naive_solver.
  - intros x. rewrite !elem_of_cons, elem_of_nil. naive_solver.
Qed.

(** ** Properties of [ParseScopes] *)

(** C9 (counterexample): the prefix ["dashboards:uid:"] does not end in
    [":id:"], so [ParseScopes] uses [parseStringAttribute]; the identifier
    set is not the integer set {7}. *)
Lemma ParseScopes_uid_not_integer :
  ParseScopes "dashboards:uid:"
    ["dashboards:uid:7"; "dashboards:uid:notanumber"; "other:uid:9"]%string
  <> ({[IdInt 7]}, false).
Proof.
  intros H. assert (IdStr "7" ∈ (ParseScopes "dashboards:uid:"
    ["dashboards:uid:7"; "dashboards:uid:notanumber"; "other:uid:9"]%string).1) as Hin.
  { apply (bool_decide_unpack _). vm_compute. reflexivity. }
  rewrite H in Hin. simpl in Hin. apply elem_of_singleton in Hin. discriminate.
Qed.

(** C9 (amended): with prefix ["dashboards:uid:"] (string mode) the scopes
    give the string identifiers {"7", "notanumber"} and no wildcard, the
    scope with another prefix being dropped; integer mode is selected by a
    prefix ending in [":id:"], where ["dashboards:id:"] on the same scopes
    gives {7}, the non-numeric identifier being dropped. *)
Theorem ParseScopes_modes :
  ParseScopes "dashboards:uid:"
    ["dashboards:uid:7"; "dashboards:uid:notanumber"; "other:uid:9"]%string
  = ({[IdStr "7"; IdStr "notanumber"]}, false) /\
  ParseScopes "dashboards:id:"
    ["dashboards:id:7"; "dashboards:id:notanumber"; "other:id:9"]%string
  = ({[IdInt 7]}, false).
Proof. split; vm_compute; reflexivity. Qed.

(** ** Substring lemmas for the role-membership builders *)

Lemma strip_app s1 s2 : strip (s1 ++ s2) = (strip s1 ++ strip s2)%string.
Proof.
  induction s1 as [|c s1 IH]; simpl; [done|]. destruct (keepChar c); simpl; by rewrite IH.
Qed.

Lemma strip_Repeat n : strip (Repeat ", ?" n) = EmptyString.
Proof. induction n as [|n IH]; simpl; [done|]. exact IH. Qed.

Lemma prefix_self_app w b : String.prefix w (w ++ b) = true.
Proof.
  induction w as [|c w IH]; simpl; [by destruct b|].
  destruct (ascii_dec c c); [exact IH | congruence].
Qed.

Lemma isInfix_app w a b : isInfix w (a ++ w ++ b) = true.
Proof.
  induction a as [|c a IH]; simpl.
  - change (EmptyString ++ w ++ b)%string with (w ++ b)%string.
    destruct w as [|c w]; simpl; [by destruct b|].
    destruct (ascii_dec c c); [by rewrite prefix_self_app | congruence].
  - rewrite IH. apply orb_true_r.
Qed.

Lemma containsStr_strip w s :
  strip w = w -> containsStr w s -> isInfix w (strip s) = true.
Proof.
  intros Hw (a & b & ->). rewrite !strip_app, Hw. apply isInfix_app.
Qed.

(** ** Properties of the role-membership join *)

(** C8: for user ID 0 the direct user-role channel contributes nothing: its
    condition is empty, the join text of [UserRolesFilter] contains no
    [user_role] fragment, and its arguments are those of the team and
    built-in channels only, for every organization, team IDs, built-in
    roles and global-organization sentinel. *)
Theorem UserRolesFilter_anonymous GlobalOrgID orgID teamIDs roles :
  UserRolesFilterCondition GlobalOrgID orgID 0 = (EmptyString, []) /\
  ~ containsStr "user_role" (UserRolesFilter GlobalOrgID orgID 0 teamIDs roles).1 /\
  (UserRolesFilter GlobalOrgID orgID 0 teamIDs roles).2 =
    (teamRolesFilter orgID teamIDs).2 ++ (builtinRolesFilter GlobalOrgID orgID roles).2.
Proof.
  split; [reflexivity|]. split.
  - intros Hc. apply containsStr_strip in Hc; [|reflexivity].
    destruct teamIDs as [|t ts], roles as [|r rs]; unfold UserRolesFilter in Hc;
      simpl in Hc; rewrite ?strip_app, ?strip_Repeat in Hc; vm_compute in Hc; discriminate.
  - destruct teamIDs as [|t ts], roles as [|r rs]; simpl; rewrite ?app_nil_r; reflexivity.
Qed.

(** ** Witnesses *)

Lemma Filter_rejects_unlisted_column_witness :
  ("name"%string ∉ sqlIDAcceptList) /\
  exists err, Filter sqlIDAcceptList (Some sampleUser) "name" "teams:id:" ["teams:read"]%string
              = (denyQuery, Some err).
Proof.
  assert ("name"%string ∉ sqlIDAcceptList) as H by concrete.
  exact (conj H (Filter_rejects_unlisted_column _ _ _ _ _ H)).
Defined.

Lemma Filter_missing_permissions_witness :
  samplePermissions !! OrgID sampleUserOrg2 = None /\
  exists err, Filter sqlIDAcceptList (Some sampleUserOrg2) "t.id" "teams:id:" ["teams:read"]%string
              = (denyQuery, Some err).
Proof.
  assert (samplePermissions !! OrgID sampleUserOrg2 = None) as H by concrete.
  split; [exact H|]. apply Filter_missing_permissions.
  right; right. exists sampleUserOrg2, samplePermissions. split; [reflexivity|]. split; [reflexivity|exact H].
Defined.

Lemma Filter_empty_action_denies_witness :
  ParseScopes "teams:id:" (actionScopes sampleScopes "teams:remove") = (∅, false) /\
  Filter sqlIDAcceptList (Some sampleUser) "t.id" "teams:id:" ["teams:read"; "teams:remove"]%string
    = (denyQuery, None).
Proof.
  assert (ParseScopes "teams:id:" (actionScopes sampleScopes "teams:remove") = (∅, false)) as H
    by concrete.
  split; [exact H|]. apply (Filter_empty_action_denies _ _ sampleScopes _ _ _ "teams:remove"); 
    [concrete | reflexivity | concrete | exact H].
Defined.

Lemma Filter_all_wildcards_allows_witness :
  (ParseScopes "teams:id:" (actionScopes sampleScopes "teams:admin")).2 = true /\
  (ParseScopes "teams:id:" (actionScopes sampleScopes "teams:create")).2 = true /\
  Filter sqlIDAcceptList (Some sampleUser) "t.id" "teams:id:" ["teams:admin"; "teams:create"]%string
    = (allowAllQuery, None).
Proof.
  split; [concrete|]. split; [concrete|].
  apply (Filter_all_wildcards_allows _ _ sampleScopes); [concrete | reflexivity |].
  intros a Ha. rewrite !elem_of_cons, elem_of_nil in Ha.
  destruct Ha as [-> | [-> | []]]; concrete.
Defined.

Lemma Filter_no_actions_allows_witness :
  orgPermissions sampleUser = Some sampleScopes /\
  Filter sqlIDAcceptList (Some sampleUser) "team.id" "teams:id:" [] = (allowAllQuery, None).
Proof.
  split; [reflexivity|]. apply (Filter_no_actions_allows _ _ sampleScopes); concrete.
Defined.

Lemma Filter_intersection_witness :
  ParseScopes "teams:id:" (actionScopes sampleScopes "teams:write")
    = ({[IdInt 1; IdInt 2; IdInt 3]}, false) /\
  ParseScopes "teams:id:" (actionScopes sampleScopes "teams:delete")
    = ({[IdInt 2; IdInt 3; IdInt 4]}, false) /\
  (exists args,
    Filter sqlIDAcceptList (Some sampleUser) "t.id" "teams:id:" ["teams:write"; "teams:delete"]%string
      = ({| Where := inClause "t.id" 2; Args := args |}, None) /\
    NoDup args /\ (forall x, x ∈ args <-> x = IdInt 2 \/ x = IdInt 3)) /\
  Filter sqlIDAcceptList (Some sampleUser) "t.id" "teams:id:" ["teams:write"; "teams:delete"]%string
    = ({| Where := inClause "t.id" 2; Args := [IdInt 3; IdInt 2] |}, None) /\
  IdInt 2 ∈ [IdInt 3; IdInt 2] /\
  (exists u pm, Some sampleUser = Some u /\ orgPermissions u = Some pm /\
     forall a, a ∈ ["teams:write"; "teams:delete"]%string ->
       (ParseScopes "teams:id:" (actionScopes pm a)).2 = true \/
       IdInt 2 ∈ (ParseScopes "teams:id:" (actionScopes pm a)).1).
Proof.
  split; [concrete|]. split; [concrete|]. split.
  - apply (proj1 Filter_intersection _ _ sampleScopes); concrete.
  - assert (Filter sqlIDAcceptList (Some sampleUser) "t.id" "teams:id:"
              ["teams:write"; "teams:delete"]%string
            = ({| Where := inClause "t.id" 2; Args := [IdInt 3; IdInt 2] |}, None)) as Hf
      by concrete.
    assert (IdInt 2 ∈ [IdInt 3; IdInt 2]) as Hx by concrete.
    exact (conj Hf (conj Hx (proj2 Filter_intersection _ _ _ _ _ _ _ _ Hf Hx))).
Defined.

Lemma Filter_wildcard_neutral_witness :
  (ParseScopes "teams:id:" (actionScopes sampleScopes "teams:admin")).2 = true /\
  ParseScopes "teams:id:" (actionScopes sampleScopes "teams:edit") = ({[IdInt 5]}, false) /\
  Filter sqlIDAcceptList (Some sampleUser) "t.id" "teams:id:" ["teams:admin"; "teams:edit"]%string
    = ({| Where := inClause "t.id" 1; Args := [IdInt 5] |}, None).
Proof.
  split; [concrete|]. split; [concrete|].
  apply (Filter_wildcard_neutral _ _ sampleScopes); concrete.
Defined.

Lemma Filter_teams_example_witness :
  sampleScopes !! "teams:read"%string = Some ["teams:id:5"; "teams:id:9"]%string /\
  exists args,
    Filter sqlIDAcceptList (Some sampleUser) "t.id" "teams:id:" ["teams:read"]%string =
      ({| Where := " t.id IN (?,?)"; Args := args |}, None) /\
    NoDup args /\ (forall x, x ∈ args <-> x = IdInt 5 \/ x = IdInt 9).
Proof.
  split; [concrete|].
  apply (Filter_teams_example _ samplePermissions sampleScopes); concrete.
Defined.

(** ** Further properties of [ParseScopes] *)

Lemma parseScopesLoop_eq parser w prefix scopes ids0 :
  parseScopesLoop parser w prefix scopes ids0 =
  if existsb (WildcardsContains w) scopes then (∅, true)
  else (ids0 ∪ parsedIds parser prefix scopes, false).
Proof.
  revert ids0. induction scopes as [|s rest IH]; intros ids0; simpl.
  - unfold parsedIds. simpl. f_equal. set_solver.
  - destruct (WildcardsContains w s); simpl; [done|]. rewrite IH.
    destruct (existsb (WildcardsContains w) rest); [done|]. f_equal.
    unfold parsedIds. simpl.
    destruct (HasPrefix s prefix); [destruct (parser s)|]; simpl; set_solver.
Qed.

Lemma ParseScopes_eq prefix scopes :
  ParseScopes prefix scopes =
  if existsb (WildcardsContains (WildcardsFromPrefix prefix)) scopes then (∅, true)
  else (parsedIds (scopeParser prefix) prefix scopes, false).
Proof.
  unfold ParseScopes. rewrite parseScopesLoop_eq. fold (scopeParser prefix).
  destruct existsb; [done|]. f_equal. set_solver.
Qed.

Lemma elem_of_parsedIds parser prefix scopes x :
  x ∈ parsedIds parser prefix scopes <->
  exists s, s ∈ scopes /\ HasPrefix s prefix = true /\ parser s = Some x.
Proof.
  unfold parsedIds. rewrite elem_of_list_to_set, list_elem_of_omap. split.
  - intros (s & Hs & Hp). destruct (HasPrefix s prefix) eqn:E; [eauto|done].
  - intros (s & Hs & Hp & Hx). exists s. by rewrite Hp.
Qed.

(** ParseScopes reports a wildcard exactly when one of the scopes equals a
    wildcard of the prefix, and then returns no identifier; otherwise its
    identifiers are exactly the values the prefix's parser extracts from
    the scopes that start with the prefix, failed parses being dropped. *)
Theorem ParseScopes_characterization prefix scopes :
  (ParseScopes prefix scopes).2 = existsb (WildcardsContains (WildcardsFromPrefix prefix)) scopes /\
  ((ParseScopes prefix scopes).2 = true -> (ParseScopes prefix scopes).1 = ∅) /\
  (forall x, x ∈ (ParseScopes prefix scopes).1 <->
     (ParseScopes prefix scopes).2 = false /\
     exists s, s ∈ scopes /\ HasPrefix s prefix = true /\ scopeParser prefix s = Some x).
Proof.
  rewrite ParseScopes_eq. destruct existsb; simpl; split; try done.
  - split; [done|]. intros x. split; [set_solver | by intros []].
  - split; [done|]. intros x. rewrite elem_of_parsedIds. naive_solver.
Qed.

(** Parsing a concatenation of scope lists: a wildcard in either part
    gives a wildcard, otherwise the identifier sets are united. *)
Theorem ParseScopes_app prefix scopes1 scopes2 :
  ParseScopes prefix (scopes1 ++ scopes2) =
  let '(ids1, w1) := ParseScopes prefix scopes1 in
  let '(ids2, w2) := ParseScopes prefix scopes2 in
  if w1 || w2 then (∅, true) else (ids1 ∪ ids2, false).
Proof.
  rewrite !ParseScopes_eq, existsb_app.
  destruct (existsb _ scopes1), (existsb _ scopes2); simpl; try done.
  f_equal. unfold parsedIds. rewrite omap_app, list_to_set_app_L. done.
Qed.

(** The order of the scopes does not matter. *)
Theorem ParseScopes_perm prefix scopes1 scopes2 :
  scopes1 ≡ₚ scopes2 -> ParseScopes prefix scopes1 = ParseScopes prefix scopes2.
Proof.
  intros Hp. rewrite !ParseScopes_eq.
  assert (existsb (WildcardsContains (WildcardsFromPrefix prefix)) scopes1 =
          existsb (WildcardsContains (WildcardsFromPrefix prefix)) scopes2) as ->.
  { apply Bool.eq_iff_eq_true. rewrite !existsb_exists.
    split; intros (s & Hs & Hw); exists s; split; try done;
      apply list_elem_of_In; [rewrite <- Hp | rewrite Hp]; by apply list_elem_of_In. }
  destruct existsb; [done|]. f_equal. apply set_eq. intros x.
  rewrite !elem_of_parsedIds. by setoid_rewrite Hp.
Qed.

(** ** Properties of the attribute parsers *)

Lemma lastColon_ge s : -1 <= lastColon s.
Proof.
  induction s as [|d rest IH]; cbn [lastColon lastIndexFrom]; [lia|].
  destruct (0 <=? lastColon rest) eqn:E; [apply Z.leb_le in E; lia|].
  destruct (Ascii.eqb ":" d); lia.
Qed.

Lemma lastIndexFrom_colon s i best :
  lastIndexFrom ":"%char s i best = if 0 <=? lastColon s then i + lastColon s else best.
Proof.
  revert i best. induction s as [|d rest IH]; intros i best; cbn [lastColon lastIndexFrom]; [done|].
  rewrite IH. pose proof (lastColon_ge rest).
  destruct (0 <=? lastColon rest) eqn:E.
  - apply Z.leb_le in E. rewrite (proj2 (Z.leb_le 0 (lastColon rest + 1))) by lia. lia.
  - destruct (Ascii.eqb ":" d); simpl; lia.
Qed.

Lemma LastIndexChar_colon s : LastIndexChar s ":"%char = lastColon s.
Proof.
  unfold LastIndexChar. rewrite lastIndexFrom_colon. pose proof (lastColon_ge s).
  destruct (0 <=? lastColon s) eqn:E; [lia|]. apply Z.leb_gt in E. lia.
Qed.

Lemma sliceFrom_zero s : sliceFrom s 0 = s.
Proof.
  unfold sliceFrom. rewrite Nat.sub_0_r.
  induction s as [|d rest IH]; simpl; [done|]. by rewrite IH.
Qed.

Lemma containsStr_cons c d r :
  containsStr (String c EmptyString) (String d r) -> d = c \/ containsStr (String c EmptyString) r.
Proof.
  intros ([|e a] & b & H); simpl in H; injection H as -> H; [by left|].
  right. exists a, b. done.
Qed.

Lemma containsStr_empty w : w <> EmptyString -> ~ containsStr w EmptyString.
Proof. intros Hw ([|e a] & b & H); [destruct w|]; done. Qed.

Lemma trailing_segment s :
  let t := sliceFrom s (Z.to_nat (lastColon s + 1)) in
  ~ containsStr ":" t /\
  exists pre, s = (pre ++ t)%string /\
    String.length pre = Z.to_nat (lastColon s + 1) /\
    (pre = EmptyString \/ exists pre', pre = (pre' ++ ":")%string).
Proof.
  induction s as [|d rest IH]; cbn [lastColon].
  - split; [by apply containsStr_empty|]. exists EmptyString. simpl. auto.
  - destruct IH as [Hnc (pre & Hs & Hlen & Hpre)].
    pose proof (lastColon_ge rest) as Hge.
    destruct (0 <=? lastColon rest) eqn:E.
    + apply Z.leb_le in E.
      replace (Z.to_nat (lastColon rest + 1 + 1)) with (S (Z.to_nat (lastColon rest + 1))) by lia.
      change (sliceFrom (String d rest) (S (Z.to_nat (lastColon rest + 1))))
        with (sliceFrom rest (Z.to_nat (lastColon rest + 1))).
      split; [done|]. exists (String d pre). split; [rewrite Hs at 1; reflexivity|].
      split; [simpl; lia|]. right. destruct Hpre as [-> | (pre' & ->)]; [simpl in Hlen; lia|].
      by exists (String d pre').
    + apply Z.leb_gt in E. assert (lastColon rest = -1) as Hm by lia. rewrite Hm in *.
      simpl in Hlen, Hs, Hnc. destruct pre; [|done]. rewrite sliceFrom_zero in Hs, Hnc.
      simpl in Hs. subst.
      destruct (Ascii.eqb ":" d) eqn:Ed; simpl.
      * replace (sliceFrom (String d rest) (Z.to_nat (0 + 1))) with rest
          by exact (eq_sym (sliceFrom_zero rest)).
        split; [done|]. exists ":"%string. apply Ascii.eqb_eq in Ed. subst d.
        split; [done|]. split; [done|]. right. by exists EmptyString.
      * replace (sliceFrom (String d rest) (Z.to_nat (-1 + 1))) with (String d rest)
          by exact (eq_sym (sliceFrom_zero _)).
        split.
        -- intros Hc. apply containsStr_cons in Hc as [-> | Hc]; [done | by apply Hnc].
        -- exists EmptyString. auto.
Qed.

(** [parseStringAttribute] never fails: it returns the part of the scope
    after its last ':' (the whole scope when it has none), a string with no
    ':' that the scope ends with, preceded by nothing or by a ':'. *)
Theorem parseStringAttribute_segment scope :
  exists t, parseStringAttribute scope = Some (IdStr t) /\
    ~ containsStr ":" t /\
    exists pre, scope = (pre ++ t)%string /\
      (pre = EmptyString \/ exists pre', pre = (pre' ++ ":")%string).
Proof.
  destruct (trailing_segment scope) as [Hnc (pre & Hs & _ & Hpre)].
  eexists. unfold parseStringAttribute. rewrite LastIndexChar_colon.
  split; [reflexivity|]. eauto.
Qed.

Lemma ParseInt64_range s v : ParseInt64 s = Some v -> - 2 ^ 63 <= v < 2 ^ 63.
Proof.
  unfold ParseInt64. destruct s as [|c rest]; [done|].
  destruct (if Ascii.eqb c "+"%char then _ else _) as [neg body].
  destruct body; [done|]. destruct parseDigits; [|done].
  destruct (_ && _) eqn:E; [|done]. intros H. injection H as <-.
  apply andb_prop in E as [E1 E2]. apply Z.leb_le in E1. apply Z.ltb_lt in E2. lia.
Qed.

(** [parseIntAttribute] succeeds only with an [int64]: the decimal value
    of the part of the scope after its last ':' (the whole scope when it
    has none), within [-2^63, 2^63). *)
Theorem parseIntAttribute_int64 scope x :
  parseIntAttribute scope = Some x ->
  exists v t, x = IdInt v /\ - 2 ^ 63 <= v < 2 ^ 63 /\ ParseInt64 t = Some v /\
    ~ containsStr ":" t /\
    exists pre, scope = (pre ++ t)%string /\
      (pre = EmptyString \/ exists pre', pre = (pre' ++ ":")%string).
Proof.
  unfold parseIntAttribute. rewrite LastIndexChar_colon.
  destruct (trailing_segment scope) as [Hnc (pre & Hs & _ & Hpre)].
  destruct (ParseInt64 _) as [v|] eqn:E; [|done]. intros H. injection H as <-.
  exists v, (sliceFrom scope (Z.to_nat (lastColon scope + 1))).
  split; [done|]. split; [by eapply ParseInt64_range|]. eauto.
Qed.

(** ** Further properties of [Filter] *)

Lemma countChar_app c s1 s2 :
  countChar c (s1 ++ s2) = (countChar c s1 + countChar c s2)%nat.
Proof. induction s1 as [|d s1 IH]; simpl; [done|]. rewrite IH. lia. Qed.

Lemma countChar_Repeat c s n : countChar c (Repeat s n) = (n * countChar c s)%nat.
Proof. induction n as [|n IH]; cbn [Repeat]; [done|]. rewrite countChar_app, IH. lia. Qed.

Lemma countChar_inClause sqlID n :
  (1 <= n)%nat -> countChar "?" (inClause sqlID n) = (countChar "?" sqlID + n)%nat.
Proof.
  intros Hn. unfold inClause. rewrite !countChar_app, countChar_Repeat. simpl. lia.
Qed.

Lemma filterResults_shape sqlID L f e :
  filterResults sqlID L = (f, e) ->
  e = None /\
  (f = denyQuery \/ f = allowAllQuery \/
   (Args f <> [] /\ NoDup (Args f) /\ Where f = inClause sqlID (length (Args f)))).
Proof.
  unfold filterResults. intros H.
  destruct (resultsLoop L 0 ∅) as [[w' r']|]; [|injection H as <- <-; auto].
  case_bool_decide; [injection H as <- <-; auto|].
  pose proof (selectIds_NoDup r' w' (length L)) as Hnd.
  destruct (selectIds r' w' (length L)) as [|i l]; injection H as <- <-; auto.
  split; [done|]. right; right. simpl. done.
Qed.

Lemma Filter_cases acc user sqlID prefix actions f e :
  Filter acc user sqlID prefix actions = (f, e) ->
  (e <> None /\ f = denyQuery /\
     (sqlID ∉ acc \/ match user with None => True | Some u => orgPermissions u = None end)) \/
  (e = None /\ sqlID ∈ acc /\ exists u pm, user = Some u /\ orgPermissions u = Some pm /\
     filterResults sqlID (map (fun a => ParseScopes prefix (actionScopes pm a)) actions) = (f, e)).
Proof.
  intros H. destruct (decide (sqlID ∈ acc)) as [Hacc|Hacc].
  - destruct user as [u|].
    + destruct (orgPermissions u) as [pm|] eqn:Hpm.
      * rewrite (Filter_results _ _ pm) in H by done.
        right. pose proof (filterResults_shape _ _ _ _ H) as [-> _]. eauto 10.
      * unfold Filter in H. rewrite bool_decide_false, Hpm in H by tauto.
        injection H as <- <-. left. auto.
    + unfold Filter in H. rewrite bool_decide_false in H by tauto.
      injection H as <- <-. left. auto.
  - unfold Filter in H. rewrite bool_decide_true in H by done.
    injection H as <- <-. left. auto.
Qed.

(** [Filter] returns a non-nil error exactly when the column is not in the
    accept list or the user or its permissions for its organization are
    missing, and every error comes with the deny-all filter. *)
Theorem Filter_error_iff acc user sqlID prefix actions :
  let '(f, e) := Filter acc user sqlID prefix actions in
  (e <> None <->
   sqlID ∉ acc \/ match user with None => True | Some u => orgPermissions u = None end) /\
  (e <> None -> f = denyQuery).
Proof.
  destruct (Filter acc user sqlID prefix actions) as [f e] eqn:H.
  apply Filter_cases in H as [(He & Hf & Hc) | (-> & Hacc & u & pm & -> & Hpm & _)].
  - split; [tauto | auto].
  - split; [|done]. split; [done|]. rewrite Hpm. intros [|]; done.
Qed.

(** Every filter [Filter] returns without error is the deny-all filter, the
    allow-all filter, or [" sqlID IN (?,...,?)"] over a non-empty list of
    distinct arguments with one placeholder per argument (when the column
    identifier itself has no '?'). *)
Theorem Filter_result_shape acc user sqlID prefix actions f :
  Filter acc user sqlID prefix actions = (f, None) ->
  f = denyQuery \/ f = allowAllQuery \/
  (Args f <> [] /\ NoDup (Args f) /\ Where f = inClause sqlID (length (Args f)) /\
   (countChar "?" sqlID = 0%nat -> countChar "?" (Where f) = length (Args f))).
Proof.
  intros H. apply Filter_cases in H as [(He & _) | (_ & _ & u & pm & _ & _ & H)]; [done|].
  apply filterResults_shape in H as [_ [|[|(Hne & Hnd & Hw)]]]; auto.
  right; right. split; [done|]. split; [done|]. split; [done|].
  intros Hq. rewrite Hw, countChar_inClause, Hq; [done|].
  destruct (Args f); [done|]. simpl. lia.
Qed.

(** Every bound argument of a filter returned by [Filter] comes from the
    user's scopes in its organization: for every requested action that is
    not wildcarded it is the parsed value of one of that action's scopes
    starting with the prefix, and at least one requested action is not
    wildcarded. *)
Theorem Filter_args_from_scopes acc user sqlID prefix actions f e x :
  Filter acc user sqlID prefix actions = (f, e) -> x ∈ Args f ->
  exists u pm, user = Some u /\ orgPermissions u = Some pm /\
    (forall a, a ∈ actions ->
       (ParseScopes prefix (actionScopes pm a)).2 = true \/
       exists s, s ∈ actionScopes pm a /\ HasPrefix s prefix = true /\
                 scopeParser prefix s = Some x) /\
    (exists a, a ∈ actions /\ (ParseScopes prefix (actionScopes pm a)).2 = false).
Proof.
  intros H Hx. apply Filter_cases in H as [(_ & -> & _) | (-> & _ & u & pm & -> & Hpm & H)];
    [by apply elem_of_nil in Hx|].
  exists u, pm. split; [done|]. split; [done|].
  apply (filterResults_args _ _ _ x) in H as [Hall (p & Hp & Hb & Hin)]; [|done].
  split.
  - intros a Ha.
    destruct (Hall (ParseScopes prefix (actionScopes pm a))) as [Hw | Hin'];
      [by apply (list_elem_of_fmap_2 (fun a => ParseScopes prefix (actionScopes pm a))) | by left|].
    right. pose proof (ParseScopes_characterization prefix (actionScopes pm a)) as (_ & _ & Hc).
    apply Hc in Hin' as [_ Hs]. exact Hs.
  - apply elem_of_parsed in Hp as (a & Ha & ->). eauto.
Qed.

(** The bound arguments of a filter returned by [Filter] are all [int64]
    values when the prefix ends in [":id:"], and all strings otherwise. *)
Theorem Filter_args_typed acc user sqlID prefix actions f e x :
  Filter acc user sqlID prefix actions = (f, e) -> x ∈ Args f ->
  if HasSuffix prefix ":id:" then exists v, x = IdInt v /\ - 2 ^ 63 <= v < 2 ^ 63
  else exists t, x = IdStr t.
Proof.
  intros H Hx.
  destruct (Filter_args_from_scopes _ _ _ _ _ _ _ _ H Hx)
    as (u & pm & _ & _ & Hall & (a & Ha & Hb)).
  destruct (Hall a Ha) as [Hw | (s & _ & _ & Hs)]; [congruence|].
  unfold scopeParser in Hs. destruct (HasSuffix prefix ":id:").
  - apply parseIntAttribute_int64 in Hs as (v & _ & -> & Hr & _). eauto.
  - unfold parseStringAttribute in Hs. injection Hs as <-. eauto.
Qed.

Lemma resultsLoop_None_iff L w r : resultsLoop L w r = None <-> (∅, false) ∈ L.
Proof.
  split; [|apply resultsLoop_empty].
  revert w r. induction L as [|[ids b] rest IH]; intros w r H; simpl in H; [done|].
  destruct b.
  - rewrite elem_of_cons. right. by eapply IH.
  - case_bool_decide as Hs.
    + apply size_empty_iff, leibniz_equiv in Hs. subst. rewrite elem_of_cons. by left.
    + rewrite elem_of_cons. right. by eapply IH.
Qed.

Lemma resultsLoop_lookup L w' r' :
  resultsLoop L 0 ∅ = Some (w', r') ->
  w' = cntWild L /\
  forall x, r' !! x = if bool_decide (cntGrant x L = 0%nat) then None else Some (cntGrant x L).
Proof.
  intros H. apply resultsLoop_counts in H as (-> & Hc & Hp).
  split; [done|]. intros x. specialize (Hc x). rewrite lookup_empty in Hc. simpl in Hc.
  destruct (r' !! x) as [c|] eqn:E; simpl in Hc.
  - assert (1 <= c)%nat by (eapply Hp; [apply map_Forall_empty | exact E]).
    rewrite bool_decide_false by lia. by subst.
  - by rewrite bool_decide_true by lia.
Qed.

Lemma cnt_perm L1 L2 x :
  L1 ≡ₚ L2 -> cntWild L1 = cntWild L2 /\ cntGrant x L1 = cntGrant x L2.
Proof.
  induction 1 as [|[i b] l1 l2 _ [IH1 IH2]|[i1 b1] [i2 b2] l|l1 l2 l3 _ [A1 A2] _ [B1 B2]];
    simpl; lia.
Qed.

Lemma filterResults_perm sqlID L1 L2 :
  L1 ≡ₚ L2 -> filterResults sqlID L1 = filterResults sqlID L2.
Proof.
  intros Hp. unfold filterResults. rewrite (Permutation_length Hp).
  destruct (resultsLoop L1 0 ∅) as [[w1 r1]|] eqn:E1,
           (resultsLoop L2 0 ∅) as [[w2 r2]|] eqn:E2.
  - apply resultsLoop_lookup in E1 as [-> H1], E2 as [-> H2].
    assert (r1 = r2) as ->.
    { apply map_eq. intros x. rewrite H1, H2. by destruct (cnt_perm _ _ x Hp) as [_ ->]. }
    by destruct (cnt_perm _ _ (IdInt 0) Hp) as [-> _].
  - apply resultsLoop_None_iff in E2. rewrite <- Hp in E2.
    apply (resultsLoop_None_iff _ 0 ∅) in E2. congruence.
  - apply resultsLoop_None_iff in E1. rewrite Hp in E1.
    apply (resultsLoop_None_iff _ 0 ∅) in E1. congruence.
  - done.
Qed.

(* In the model the tally is enumerated in one fixed order, so permuted
   actions give the very same result. *)
Lemma Filter_actions_perm_eq acc user sqlID prefix actions1 actions2 :
  actions1 ≡ₚ actions2 ->
  Filter acc user sqlID prefix actions1 = Filter acc user sqlID prefix actions2.
Proof.
  intros Hp. destruct (decide (sqlID ∈ acc)) as [Hacc|Hacc].
  - destruct user as [u|]; [|done].
    destruct (orgPermissions u) as [pm|] eqn:Hpm.
    + rewrite !(Filter_results _ _ pm) by done. apply filterResults_perm.
      by apply Permutation_map.
    + unfold Filter. by rewrite Hpm.
  - unfold Filter. by rewrite bool_decide_true.
Qed.

(** The order of the requested actions does not change the condition
    [Filter] returns nor its error, and its bound arguments are the same
    up to their order (Go enumerates the tally map in no fixed order). *)
Theorem Filter_actions_perm acc user sqlID prefix actions1 actions2 :
  actions1 ≡ₚ actions2 ->
  let '(f1, e1) := Filter acc user sqlID prefix actions1 in
  let '(f2, e2) := Filter acc user sqlID prefix actions2 in
  Where f1 = Where f2 /\ e1 = e2 /\ Args f1 ≡ₚ Args f2.
Proof.
  intros Hp. rewrite (Filter_actions_perm_eq _ _ _ _ _ _ Hp).
  destruct (Filter acc user sqlID prefix actions2) as [f e]. done.
Qed.

(** ** Further properties of the role-membership join *)

(** The arguments of [UserRolesFilter] are those of the user-role, the
    team-role and the built-in-role channels, in this order. *)
Theorem UserRolesFilter_params GlobalOrgID orgID userID teamIDs roles :
  (UserRolesFilter GlobalOrgID orgID userID teamIDs roles).2 =
  (userRolesFilter GlobalOrgID orgID userID).2 ++ (teamRolesFilter orgID teamIDs).2 ++
  (builtinRolesFilter GlobalOrgID orgID roles).2.
Proof.
  destruct (decide (userID = 0)) as [->|Hu].
  - destruct teamIDs as [|t ts], roles as [|r rs]; simpl; rewrite ?app_nil_r; reflexivity.
  - unfold UserRolesFilter, userRolesFilter, UserRolesFilterCondition.
    rewrite !bool_decide_false by done.
    destruct teamIDs as [|t ts], roles as [|r rs]; simpl; rewrite ?app_nil_r, <- ?app_assoc;
      reflexivity.
Qed.

(** Placeholders against arguments in [UserRolesFilter]: with user ID 0
    every ['?'] of the join has one argument; with a non-zero user ID the
    arguments outnumber the placeholders by one, the user-role condition
    binding [userID], [orgID] and [GlobalOrgID] to its two ['?']. *)
Theorem UserRolesFilter_placeholders GlobalOrgID orgID userID teamIDs roles :
  (countChar "?" (UserRolesFilter GlobalOrgID orgID userID teamIDs roles).1
     + (if bool_decide (userID = 0%Z) then 0 else 1))%nat =
  length (UserRolesFilter GlobalOrgID orgID userID teamIDs roles).2.
Proof.
  destruct (decide (userID = 0)) as [->|Hu].
  - destruct teamIDs as [|t ts], roles as [|r rs]; simpl;
      rewrite ?countChar_app, ?countChar_Repeat; simpl; rewrite ?length_app, ?length_map; simpl;
      rewrite ?length_app, ?length_map; simpl; lia.
  - unfold UserRolesFilter, userRolesFilter, UserRolesFilterCondition.
    rewrite !bool_decide_false by done.
    destruct teamIDs as [|t ts], roles as [|r rs]; simpl;
      rewrite ?countChar_app, ?countChar_Repeat; simpl; rewrite ?length_app, ?length_map; simpl;
      rewrite ?length_app, ?length_map; simpl; lia.
Qed.

(** The join of [UserRolesFilter] has an empty subquery, and no argument,
    exactly when the user ID is 0 and there are no team IDs and no
    built-in roles. *)
Theorem UserRolesFilter_empty_iff GlobalOrgID orgID userID teamIDs roles :
  UserRolesFilter GlobalOrgID orgID userID teamIDs roles =
    ("INNER JOIN () as all_role ON role.id = all_role.role_id"%string, []) <->
  userID = 0 /\ teamIDs = [] /\ roles = [].
Proof.
  split; [|intros (-> & -> & ->); reflexivity].
  intros H. apply (f_equal (fun p => countChar "010"%char p.1)) in H. simpl in H.
  destruct (decide (userID = 0)) as [->|Hu].
  - destruct teamIDs as [|t ts], roles as [|r rs]; [done| | |]; simpl in H;
      rewrite ?countChar_app, ?countChar_Repeat in H; simpl in H; lia.
  - unfold UserRolesFilter, userRolesFilter, UserRolesFilterCondition in H.
    rewrite !bool_decide_false in H by done.
    destruct teamIDs as [|t ts], roles as [|r rs]; simpl in H;
      rewrite ?countChar_app, ?countChar_Repeat in H; simpl in H; lia.
Qed.

(** ** Witnesses of the further properties *)

Definition sampleInFilter : SQLFilter :=
  {| Where := " t.id IN (?,?)"; Args := [IdInt 9; IdInt 5] |}.

Lemma ParseScopes_perm_witness :
  ["teams:id:1"; "teams:*"]%string ≡ₚ ["teams:*"; "teams:id:1"]%string /\
  ParseScopes "teams:id:" ["teams:id:1"; "teams:*"]%string =
  ParseScopes "teams:id:" ["teams:*"; "teams:id:1"]%string.
Proof.
  assert (["teams:id:1"; "teams:*"]%string ≡ₚ ["teams:*"; "teams:id:1"]%string) as H
    by apply perm_swap.
  exact (conj H (ParseScopes_perm _ _ _ H)).
Defined.

Lemma parseIntAttribute_int64_witness :
  parseIntAttribute "teams:id:-42" = Some (IdInt (-42)) /\
  exists v t, IdInt (-42) = IdInt v /\ - 2 ^ 63 <= v < 2 ^ 63 /\ ParseInt64 t = Some v /\
    ~ containsStr ":" t /\
    exists pre, "teams:id:-42"%string = (pre ++ t)%string /\
      (pre = EmptyString \/ exists pre', pre = (pre' ++ ":")%string).
Proof.
  assert (parseIntAttribute "teams:id:-42" = Some (IdInt (-42))) as H by concrete.
  exact (conj H (parseIntAttribute_int64 _ _ H)).
Defined.

Lemma Filter_result_shape_witness :
  Filter sqlIDAcceptList (Some sampleUser) "t.id" "teams:id:" ["teams:read"]%string
    = (sampleInFilter, None) /\
  (sampleInFilter = denyQuery \/ sampleInFilter = allowAllQuery \/
   (Args sampleInFilter <> [] /\ NoDup (Args sampleInFilter) /\
    Where sampleInFilter = inClause "t.id" (length (Args sampleInFilter)) /\
    (countChar "?" "t.id" = 0%nat ->
     countChar "?" (Where sampleInFilter) = length (Args sampleInFilter)))).
Proof.
  assert (Filter sqlIDAcceptList (Some sampleUser) "t.id" "teams:id:" ["teams:read"]%string
    = (sampleInFilter, None)) as H by concrete.
  exact (conj H (Filter_result_shape _ _ _ _ _ _ H)).
Defined.

Lemma Filter_args_from_scopes_witness :
  Filter sqlIDAcceptList (Some sampleUser) "t.id" "teams:id:" ["teams:read"]%string
    = (sampleInFilter, None) /\ IdInt 5 ∈ Args sampleInFilter /\
  exists u pm, Some sampleUser = Some u /\ orgPermissions u = Some pm /\
    (forall a, a ∈ ["teams:read"]%string ->
       (ParseScopes "teams:id:" (actionScopes pm a)).2 = true \/
       exists s, s ∈ actionScopes pm a /\ HasPrefix s "teams:id:" = true /\
                 scopeParser "teams:id:" s = Some (IdInt 5)) /\
    (exists a, a ∈ ["teams:read"]%string /\ (ParseScopes "teams:id:" (actionScopes pm a)).2 = false).
Proof.
  assert (Filter sqlIDAcceptList (Some sampleUser) "t.id" "teams:id:" ["teams:read"]%string
    = (sampleInFilter, None)) as H by concrete.
  assert (IdInt 5 ∈ Args sampleInFilter) as Hx by concrete.
  exact (conj H (conj Hx (Filter_args_from_scopes _ _ _ _ _ _ _ _ H Hx))).
Defined.

Lemma Filter_args_typed_witness :
  Filter sqlIDAcceptList (Some sampleUser) "t.id" "teams:id:" ["teams:read"]%string
    = (sampleInFilter, None) /\ IdInt 9 ∈ Args sampleInFilter /\
  (if HasSuffix "teams:id:" ":id:" then exists v, IdInt 9 = IdInt v /\ - 2 ^ 63 <= v < 2 ^ 63
   else exists t, IdInt 9 = IdStr t).
Proof.
  assert (Filter sqlIDAcceptList (Some sampleUser) "t.id" "teams:id:" ["teams:read"]%string
    = (sampleInFilter, None)) as H by concrete.
  assert (IdInt 9 ∈ Args sampleInFilter) as Hx by concrete.
  exact (conj H (conj Hx (Filter_args_typed _ _ _ _ _ _ _ _ H Hx))).
Defined.

Lemma Filter_actions_perm_witness :
  ["teams:write"; "teams:delete"]%string ≡ₚ ["teams:delete"; "teams:write"]%string /\
  let '(f1, e1) := Filter sqlIDAcceptList (Some sampleUser) "t.id" "teams:id:"
                     ["teams:write"; "teams:delete"]%string in
  let '(f2, e2) := Filter sqlIDAcceptList (Some sampleUser) "t.id" "teams:id:"
                     ["teams:delete"; "teams:write"]%string in
  Where f1 = Where f2 /\ e1 = e2 /\ Args f1 ≡ₚ Args f2.
Proof.
  assert (["teams:write"; "teams:delete"]%string ≡ₚ ["teams:delete"; "teams:write"]%string) as H
    by apply perm_swap.
  exact (conj H (Filter_actions_perm sqlIDAcceptList (Some sampleUser) "t.id" "teams:id:" _ _ H)).
Defined.
